(** * vatz-plugin-ethereum: the block-height probe of plugins/node_block_sync

    A shallow embedding of [plugins/node_block_sync/main.go]:
    - [hexToInt64], the conversion of the node's hexadecimal answer to an
      [int64], together with the part of Go's [math/big] it calls
      ([Int.SetString], [Int.IsInt64], [Int.Int64]);
    - [pluginFeature], the check registered with the VATZ SDK, as a state
      transformer over the package-level variables [prevHeight],
      [warningCount] and [criticalCount].

    Go strings are byte sequences; they are modelled by [string], whose
    characters are the 256 values of [ascii].  Go's fixed-width integers are
    modelled by [Z] with the wrap-around written out. *)

From Stdlib Require Import ZArith List Bool Lia.
From Stdlib Require Import Ascii String.
From Stdlib Require Import DecimalString.
Import ListNotations.

Local Open Scope string_scope.
Local Open Scope Z_scope.

(** ** Machine integers *)

Module GoInt.

(** [uint64] / [big.Word] on a 64-bit target. *)
Definition wrap_uint64 (z : Z) : Z := z mod 2 ^ 64.

(** Conversion to a signed 64-bit integer ([int64(x)]): two's complement. *)
Definition wrap_int64 (z : Z) : Z := (z + 2 ^ 63) mod 2 ^ 64 - 2 ^ 63.

Definition min_int64 : Z := - 2 ^ 63.
Definition max_int64 : Z := 2 ^ 63 - 1.

(** Go's [int] has the width of the target's word; 64 bits here. *)
Definition wrap_int (z : Z) : Z := wrap_int64 z.
Definition max_int : Z := max_int64.
Definition min_int : Z := min_int64.

Definition in_int64 (z : Z) : Prop := min_int64 <= z <= max_int64.
Definition in_int (z : Z) : Prop := min_int <= z <= max_int.

End GoInt.

(** ** Errors

    A Go [error] is observed by this program only through its text
    ([%v] calls [Error()]); it is modelled by that text. *)

Definition error : Type := string.

(** [%d] of an integer. *)
Definition fmt_d (z : Z) : string := NilZero.string_of_int (Z.to_int z).

(** ** math/big: the functions used by [hexToInt64] *)

Module big.

(** [big.Int]: sign and magnitude, as in Go ([neg bool; abs nat]).  The
    magnitude, a slice of 64-bit words without leading zero words, is
    modelled by the number it stands for. *)
Record Int : Type := mkInt { neg : bool; abs : Z }.

Definition value (x : Int) : Z := if neg x then - abs x else abs x.

(** A [strings.Reader] is modelled by the bytes not read yet. *)
Definition byte_val (ch : ascii) : Z := Z.of_N (N_of_ascii ch).

Definition MaxBase : Z := 62.
Definition maxBaseSmall : Z := 36.

(** [scanSign]: an empty reader is an error ([io.EOF]); a ['-'] or ['+'] is
    consumed; any other byte is unread. *)
Definition scanSign (r : string) : option (bool * string) :=
  match r with
  | EmptyString => None
  | String ch r' =>
      if Ascii.eqb ch "-" then Some (true, r')
      else if Ascii.eqb ch "+" then Some (false, r')
      else Some (false, r)
  end.

(** [maxPow b]: the largest power [b^n] that fits in a [Word], with [n].
    For [b >= 2] the loop of the library ends within 64 rounds. *)
Fixpoint maxPow_loop (fuel : nat) (b max p n : Z) : Z * Z :=
  match fuel with
  | O => (p, n)
  | S fuel' =>
      if p <=? max then maxPow_loop fuel' b max (p * b) (n + 1) else (p, n)
  end.

Definition maxPow (b : Z) : Z * Z :=
  maxPow_loop 64 b ((2 ^ 64 - 1) / b) b 1.

(** The digit value of a byte in [nat.scan] (the [switch] on [ch]). *)
Definition digit_val (b : Z) (ch : ascii) : Z :=
  let c := byte_val ch in
  if (byte_val "0" <=? c) && (c <=? byte_val "9") then c - byte_val "0"
  else if (byte_val "a" <=? c) && (c <=? byte_val "z") then c - byte_val "a" + 10
  else if (byte_val "A" <=? c) && (c <=? byte_val "Z") then
    if b <=? maxBaseSmall then c - byte_val "A" + 10
    else c - byte_val "A" + maxBaseSmall
  else MaxBase + 1.

(** The digit loop of [nat.scan] for an explicit base [2 <= b <= MaxBase]
    and [fracOk = false], where neither ['.'] nor ['_'] is special: digits
    are collected in the word [di], [n] at a time, and added to the result
    [z] with [mulAddWW].  The loop ends at the end of the input or at the
    first byte that is not a digit of the base, which is unread. *)
Fixpoint scan_loop (b bn n : Z) (r : string) (z di i count : Z)
  : Z * Z * Z * Z * string :=
  match r with
  | EmptyString => (z, di, i, count, EmptyString)
  | String ch r' =>
      let d1 := digit_val b ch in
      if d1 >=? b then (z, di, i, count, r)
      else
        let count' := count + 1 in
        let di' := GoInt.wrap_uint64 (di * b + d1) in
        let i' := i + 1 in
        if i' =? n then scan_loop b bn n r' (z * bn + di') 0 0 count'
        else scan_loop b bn n r' z di' i' count'
  end.

(** [nat.scan r base false]: the magnitude and the unread input, or
    [None] when there is no digit ([errNoDigits]). *)
Definition nat_scan (r : string) (b : Z) : option (Z * string) :=
  let '(bn, n) := maxPow b in
  let '(z, di, i, count, rest) := scan_loop b bn n r 0 0 0 0 in
  if count =? 0 then None
  else
    let z' := if 0 <? i then z * GoInt.wrap_uint64 (b ^ i) + di else z in
    Some (z', rest).

(** [Int.scan]: a sign, then a magnitude; zero has no sign. *)
Definition Int_scan (r : string) (b : Z) : option (Int * string) :=
  match scanSign r with
  | None => None
  | Some (ng, r1) =>
      match nat_scan r1 b with
      | None => None
      | Some (a, r2) => Some (mkInt ((0 <? a) && ng) a, r2)
      end
  end.

(** [Int.SetString s base]: the whole of [s] must have been consumed. *)
Definition SetString (s : string) (base : Z) : option Int :=
  match Int_scan s base with
  | None => None
  | Some (x, EmptyString) => Some x
  | Some (_, String _ _) => None
  end.

(** [low64]: the least significant word of the magnitude. *)
Definition low64 (a : Z) : Z := GoInt.wrap_uint64 a.

(** [Int.IsInt64]: at most one word, which read as an [int64] [w] is
    non-negative, or [x] is negative and [w == -w]. *)
Definition IsInt64 (x : Int) : bool :=
  if abs x <? 2 ^ 64 then
    let w := GoInt.wrap_int64 (low64 (abs x)) in
    (w >=? 0) || (neg x && (w =? GoInt.wrap_int64 (- w)))
  else false.

(** [Int.Int64]: the low word as an [int64], negated for a negative [x]. *)
Definition Int64 (x : Int) : Z :=
  let v := GoInt.wrap_int64 (low64 (abs x)) in
  if neg x then GoInt.wrap_int64 (- v) else v.

End big.

(** ** hexToInt64 *)

(** [hexStr[:2] == "0x"] under the guard [len(hexStr) >= 2], and
    [hexStr[2:]]. *)
Definition strip0x (hexStr : string) : string :=
  if (2 <=? String.length hexStr)%nat && String.eqb (substring 0 2 hexStr) "0x"
  then substring 2 (String.length hexStr - 2) hexStr
  else hexStr.

Definition err_parse (hexStr : string) : error :=
  "failed to parse hex string: " ++ hexStr.

Definition err_too_large (hexStr : string) : error :=
  "hex value too large for int64: " ++ hexStr.

Definition hexToInt64 (hexStr : string) : Z + error :=
  let hexStr := strip0x hexStr in
  match big.SetString hexStr 16 with
  | None => inr (err_parse hexStr)
  | Some n =>
      if negb (big.IsInt64 n) then inr (err_too_large hexStr)
      else inl (big.Int64 n)
  end.

(** ** The SDK's types *)

(** [pluginpb.SEVERITY] and [pluginpb.STATE] of vatz-proto. *)
Inductive SEVERITY : Type :=
| SEVERITY_UNKNOWN
| SEVERITY_WARNING
| SEVERITY_ERROR
| SEVERITY_CRITICAL
| SEVERITY_INFO.

Inductive STATE : Type :=
| STATE_NONE
| STATE_PENDING
| STATE_IN_PROGRESS
| STATE_SUCCESS
| STATE_FAILURE.

(** The fields of [sdk.CallResponse] that the plugin sets. *)
Record CallResponse : Type := mkCallResponse {
  FuncName : string;
  Message : string;
  Severity : SEVERITY;
  State : STATE
}.

Definition set_Message (m : string) (r : CallResponse) : CallResponse :=
  mkCallResponse (FuncName r) m (Severity r) (State r).
Definition set_Severity (s : SEVERITY) (r : CallResponse) : CallResponse :=
  mkCallResponse (FuncName r) (Message r) s (State r).
Definition set_State (s : STATE) (r : CallResponse) : CallResponse :=
  mkCallResponse (FuncName r) (Message r) (Severity r) s.

(** [structpb.Value], as far as the plugin looks at it, and a
    [map[string]*structpb.Value]: an absent key reads as the nil pointer, on
    which [GetStringValue] returns the empty string. *)
Inductive Value : Type :=
| StringValue (s : string)
| OtherValue.

Definition structmap : Type := string -> option Value.

Definition GetStringValue (v : option Value) : string :=
  match v with
  | Some (StringValue s) => s
  | _ => ""
  end.

(** ** The check *)

Record BlockHeightResponse : Type := mkBlockHeightResponse {
  JsonRPC : string;
  Result : string;
  ID : Z
}.

(** The package-level variables read and written by [pluginFeature].
    [prevHeight] is an [int64]; [warningCount] and [criticalCount] are
    [int]s.  [criticalCount] is set once from the command line. *)
Record Globals : Type := mkGlobals {
  prevHeight : Z;
  warningCount : Z;
  criticalCount : Z
}.

Definition defaultCriticalCount : Z := 3.

(** The variables when the process starts with its default flags. *)
Definition init_globals : Globals := mkGlobals 0 0 defaultCriticalCount.

(** What the outside world answers during one call: the HTTP POST of
    [eth_blockNumber] fails, or it returns a body that [json.Unmarshal]
    rejects, or the body decodes to a [BlockHeightResponse]. *)
Inductive rpc : Type :=
| PostFailed (err : error)
| UnmarshalFailed (err : error)
| Unmarshalled (blockHeightResp : BlockHeightResponse).

(** [pluginFeature], with the answer of the outside world as an argument
    and the package-level variables passed in and out.  The second result is
    the returned [error] ([None] for [nil]).  The [option] argument is not
    read by the function and the log lines change nothing that it returns;
    both are left out. *)
Definition pluginFeature (info : structmap) (w : rpc) (g : Globals)
  : CallResponse * option error * Globals :=
  let ret := mkCallResponse (GetStringValue (info "execute_method"))
               "Unable to fetch block height" SEVERITY_UNKNOWN STATE_NONE in
  match w with
  | PostFailed err =>
      let ret := set_Message ("Failed to get response: " ++ err)%string ret in
      let ret := set_Severity SEVERITY_CRITICAL ret in
      let ret := set_State STATE_FAILURE ret in
      (ret, Some err, g)
  | UnmarshalFailed err =>
      let ret := set_Message ("Failed to parse response: " ++ err)%string ret in
      let ret := set_Severity SEVERITY_CRITICAL ret in
      let ret := set_State STATE_FAILURE ret in
      (ret, Some err, g)
  | Unmarshalled blockHeightResp =>
      match hexToInt64 (Result blockHeightResp) with
      | inr err =>
          let ret :=
            set_Message ("Failed to convert hex to int64: " ++ err)%string ret in
          let ret := set_Severity SEVERITY_CRITICAL ret in
          let ret := set_State STATE_FAILURE ret in
          (ret, Some err, g)
      | inl latestHeight =>
          let '(ret, warningCount') :=
            if latestHeight >? prevHeight g then
              let ret := set_Message
                ("Block height increasing. Current height: "
                   ++ fmt_d latestHeight)%string ret in
              let ret := set_Severity SEVERITY_INFO ret in
              (ret, 0)
            else
              let warningCount' := GoInt.wrap_int (warningCount g + 1) in
              if warningCount' >? criticalCount g then
                let ret := set_Message
                  ("Block height stuck more than " ++ fmt_d (criticalCount g)
                     ++ " times. Current height: " ++ fmt_d latestHeight)%string
                  ret in
                let ret := set_Severity SEVERITY_CRITICAL ret in
                (ret, warningCount')
              else
                let ret := set_Message
                  ("Block height stuck " ++ fmt_d warningCount'
                     ++ " times. Current height: " ++ fmt_d latestHeight)%string
                  ret in
                let ret := set_Severity SEVERITY_WARNING ret in
                (ret, warningCount') in
          let ret := set_State STATE_SUCCESS ret in
          (ret, None, mkGlobals latestHeight warningCount' (criticalCount g))
      end
  end.

(** A sequence of calls, one per scheduler tick, threading the variables. *)
Fixpoint run (ticks : list (structmap * rpc)) (g : Globals)
  : list (CallResponse * option error) * Globals :=
  match ticks with
  | [] => ([], g)
  | (info, w) :: ticks' =>
      let '(ret, err, g1) := pluginFeature info w g in
      let '(rets, g2) := run ticks' g1 in
      ((ret, err) :: rets, g2)
  end.

(** The variables that the process can reach from [g0]. *)
Inductive reachable (g0 : Globals) : Globals -> Prop :=
| reach_start : reachable g0 g0
| reach_call info w g :
    reachable g0 g -> reachable g0 (snd (pluginFeature info w g)).

(** ** Hexadecimal numerals, as the specification reads them *)

Module Hex.

Local Open Scope char_scope.

(** The position of a character in an alphabet, counted from [k]. *)
Fixpoint index_from (k : Z) (ch : ascii) (alphabet : string) : option Z :=
  match alphabet with
  | EmptyString => None
  | String c rest =>
      if Ascii.eqb ch c then Some k else index_from (k + 1) ch rest
  end.

(** The value of a character of [[0-9a-fA-F]]: its position among the
    sixteen digits, in either case. *)
Definition hex_digit (ch : ascii) : option Z :=
  match index_from 0 ch "0123456789abcdef" with
  | Some d => Some d
  | None => index_from 0 ch "0123456789ABCDEF"
  end.

Definition is_hex_digit (ch : ascii) : bool :=
  match hex_digit ch with Some _ => true | None => false end.

Definition digit_of (ch : ascii) : Z :=
  match hex_digit ch with Some d => d | None => 0 end.

(** Every character is in [[0-9a-fA-F]]. *)
Fixpoint all_hex (s : string) : bool :=
  match s with
  | EmptyString => true
  | String ch r => is_hex_digit ch && all_hex r
  end.

Definition nonempty (s : string) : bool :=
  match s with EmptyString => false | String _ _ => true end.

(** The base-16 value of a digit string, most significant digit first. *)
Fixpoint hex_value (s : string) : Z :=
  match s with
  | EmptyString => 0
  | String ch r => digit_of ch * 16 ^ Z.of_nat (String.length r) + hex_value r
  end.

(** The longest prefix of hexadecimal digits, and what follows it. *)
Fixpoint hex_prefix (s : string) : string * string :=
  match s with
  | EmptyString => (EmptyString, EmptyString)
  | String ch r =>
      if is_hex_digit ch then
        let '(p, q) := hex_prefix r in (String ch p, q)
      else (EmptyString, s)
  end.

(** One optional leading sign. *)
Definition split_sign (s : string) : bool * string :=
  match s with
  | String "-" r => (true, r)
  | String "+" r => (false, r)
  | _ => (false, s)
  end.

(** A well-formed numeral of the specification: an optional lowercase
    [0x], then one or more hexadecimal digits. *)
Definition digits_ok (d : string) : Prop :=
  nonempty d = true /\ all_hex d = true.

End Hex.

Import Hex.

(** ** Vocabulary of the statements about the check *)

(** The call fails before an observation is made: the error that stops it,
    and the text that the message puts in front of it. *)
Definition failure_of (w : rpc) : option (string * error) :=
  match w with
  | PostFailed err => Some ("Failed to get response: ", err)
  | UnmarshalFailed err => Some ("Failed to parse response: ", err)
  | Unmarshalled blockHeightResp =>
      match hexToInt64 (Result blockHeightResp) with
      | inr err => Some ("Failed to convert hex to int64: ", err)
      | inl _ => None
      end
  end.

(** The height observed by a call that does not fail. *)
Definition observed (w : rpc) : option Z :=
  match w with
  | Unmarshalled blockHeightResp =>
      match hexToInt64 (Result blockHeightResp) with
      | inl latestHeight => Some latestHeight
      | inr _ => None
      end
  | _ => None
  end.

(** [e] occurs in [m]. *)
Definition embeds (m e : string) : Prop :=
  exists pre post, m = (pre ++ e ++ post)%string.

(** A node answer carrying the hexadecimal string [s]. *)
Definition answer (s : string) : rpc :=
  Unmarshalled (mkBlockHeightResponse "2.0" s 1).

(** A call without metadata. *)
Definition no_info : structmap := fun _ => None.

(** ** Vocabulary of the statements about numerals and call sequences *)

(** [n] characters ['0']. *)
Fixpoint zeros (n : nat) : string :=
  match n with
  | O => EmptyString
  | S n' => String "0" (zeros n')
  end.

(** The letters [a-z] in upper case, any other byte unchanged. *)
Definition upper_char (ch : ascii) : ascii :=
  let c := N_of_ascii ch in
  if ((97 <=? c) && (c <=? 122))%N then ascii_of_N (c - 32) else ch.

Fixpoint upper (s : string) : string :=
  match s with
  | EmptyString => EmptyString
  | String ch r => String (upper_char ch) (upper r)
  end.

(** The digit character of a value below 16, in lower case. *)
Definition hex_char (d : Z) : ascii :=
  match String.get (Z.to_nat d) "0123456789abcdef" with
  | Some ch => ch
  | None => "0"%char
  end.

(** The digits of [v], most significant first, put in front of [acc]; at
    most [fuel] of them. *)
Fixpoint hex_digits (fuel : nat) (v : Z) (acc : string) : string :=
  match fuel with
  | O => acc
  | S fuel' =>
      let acc' := String (hex_char (v mod 16)) acc in
      if v / 16 =? 0 then acc' else hex_digits fuel' (v / 16) acc'
  end.

(** How an Ethereum node writes a block number [0 <= v < 2^64]: [0x], then
    the digits in lower case without leading zeros ([0x0] for zero); what
    Go's [%#x] prints. *)
Definition format_hex (v : Z) : string :=
  ("0x" ++ hex_digits 16 v EmptyString)%string.

(** The call makes an observation (it does not fail). *)
Definition succeeded (t : structmap * rpc) : bool :=
  match observed (snd t) with Some _ => true | None => false end.

(** The heights observed by a sequence of calls, in order. *)
Fixpoint observations (ticks : list (structmap * rpc)) : list Z :=
  match ticks with
  | [] => []
  | t :: ticks' =>
      match observed (snd t) with
      | Some h => h :: observations ticks'
      | None => observations ticks'
      end
  end.

(** Every call observes a height that is not above the one before it,
    starting from [p]. *)
Fixpoint stalling (p : Z) (ticks : list (structmap * rpc)) : Prop :=
  match ticks with
  | [] => True
  | t :: ticks' =>
      exists h, observed (snd t) = Some h /\ h <= p /\ stalling h ticks'
  end.

(** The severity that the [k]-th stalled call in a row reports under the
    threshold [c]. *)
Definition stall_severity (c : Z) (k : nat) : SEVERITY :=
  if Z.of_nat k >? c then SEVERITY_CRITICAL else SEVERITY_WARNING.

(** The call returned a nil error. *)
Definition no_error (r : CallResponse * option error) : bool :=
  match snd r with None => true | Some _ => false end.

(** ** Facts about the machine integers *)

Lemma wrap_uint64_small z : 0 <= z < 2 ^ 64 -> GoInt.wrap_uint64 z = z.
Proof. intros H. unfold GoInt.wrap_uint64. now apply Z.mod_small. Qed.

Lemma wrap_int64_small z : GoInt.in_int64 z -> GoInt.wrap_int64 z = z.
Proof.
  unfold GoInt.in_int64, GoInt.min_int64, GoInt.max_int64, GoInt.wrap_int64.
  intros H. rewrite Z.mod_small; lia.
Qed.

Lemma wrap_int64_range z : GoInt.in_int64 (GoInt.wrap_int64 z).
Proof.
  unfold GoInt.in_int64, GoInt.min_int64, GoInt.max_int64, GoInt.wrap_int64.
  pose proof (Z.mod_pos_bound (z + 2 ^ 63) (2 ^ 64) ltac:(lia)). lia.
Qed.

Lemma wrap_int_small z : GoInt.in_int z -> GoInt.wrap_int z = z.
Proof. apply wrap_int64_small. Qed.

Lemma wrap_int_max : GoInt.wrap_int (GoInt.max_int + 1) = GoInt.min_int.
Proof. reflexivity. Qed.

(** ** Facts about the scanner of math/big *)

Lemma digit_val_16 ch :
  match hex_digit ch with
  | Some d => big.digit_val 16 ch = d /\ 0 <= d < 16
  | None => 16 <= big.digit_val 16 ch
  end.
Proof.
  destruct ch as [[] [] [] [] [] [] [] []]; vm_compute;
    repeat split; congruence.
Qed.

Lemma digit_val_hex ch :
  is_hex_digit ch = true ->
  big.digit_val 16 ch = digit_of ch /\ 0 <= digit_of ch < 16.
Proof.
  unfold is_hex_digit, digit_of. pose proof (digit_val_16 ch) as H.
  destruct (hex_digit ch); [intros _; exact H | discriminate].
Qed.

Lemma digit_val_not_hex ch :
  is_hex_digit ch = false -> 16 <= big.digit_val 16 ch.
Proof.
  unfold is_hex_digit. pose proof (digit_val_16 ch) as H.
  destruct (hex_digit ch); [discriminate | intros _; exact H].
Qed.

Lemma maxPow_16 : big.maxPow 16 = (16 ^ 15, 15).
Proof. reflexivity. Qed.

Lemma hex_prefix_cons_hex ch r :
  is_hex_digit ch = true ->
  hex_prefix (String ch r) = (String ch (fst (hex_prefix r)), snd (hex_prefix r)).
Proof.
  intros H. cbn [hex_prefix]. rewrite H. now destruct (hex_prefix r).
Qed.

Lemma hex_prefix_cons_other ch r :
  is_hex_digit ch = false -> hex_prefix (String ch r) = (EmptyString, String ch r).
Proof. intros H. cbn [hex_prefix]. now rewrite H. Qed.

(** The digit loop in base 16: it consumes the longest prefix of
    hexadecimal digits, counts them, and keeps [z * 16^i + di] equal to the
    value read so far; the word [di] never overflows. *)
Lemma scan_loop_16 r : forall z di i count,
  0 <= i < 15 -> 0 <= di < 16 ^ i ->
  exists z' di' i',
    big.scan_loop 16 (16 ^ 15) 15 r z di i count
      = (z', di', i',
         count + Z.of_nat (String.length (fst (hex_prefix r))),
         snd (hex_prefix r))
    /\ 0 <= i' < 15 /\ 0 <= di' < 16 ^ i'
    /\ z' * 16 ^ i' + di'
       = (z * 16 ^ i + di) * 16 ^ Z.of_nat (String.length (fst (hex_prefix r)))
         + hex_value (fst (hex_prefix r)).
Proof.
  induction r as [|ch r IH]; intros z di i count Hi Hdi.
  - exists z, di, i. cbn. repeat split; try lia. f_equal. f_equal. lia.
  - cbn [big.scan_loop]. destruct (is_hex_digit ch) eqn:Hch.
    + destruct (digit_val_hex ch Hch) as [Hd Hrange].
      rewrite (hex_prefix_cons_hex ch r Hch). cbn [fst snd].
      rewrite Hd. rewrite Z.geb_leb.
      destruct (Z.leb_spec 16 (digit_of ch)) as [Hbad|_]; [lia|].
      set (p := fst (hex_prefix r)) in *.
      assert (Hpow : 16 ^ (i + 1) = 16 * 16 ^ i)
        by (rewrite Z.pow_add_r by lia; lia).
      assert (Hmono : 16 ^ (i + 1) <= 16 ^ 15)
        by (apply Z.pow_le_mono_r; lia).
      assert (Hdi' : 0 <= di * 16 + digit_of ch < 16 ^ (i + 1)) by lia.
      rewrite wrap_uint64_small by (change (2 ^ 64) with (16 * 16 ^ 15); lia).
      assert (Hlen : 16 ^ Z.of_nat (String.length (String ch p))
                     = 16 * 16 ^ Z.of_nat (String.length p)).
      { cbn [String.length]. rewrite Nat2Z.inj_succ, Z.pow_succ_r; lia. }
      cbn [hex_value]. rewrite Hlen.
      replace (count + Z.of_nat (String.length (String ch p)))
        with (count + 1 + Z.of_nat (String.length p))
        by (cbn [String.length]; lia).
      destruct (Z.eqb_spec (i + 1) 15) as [Hfull|Hnot].
      * destruct (IH (z * 16 ^ 15 + (di * 16 + digit_of ch)) 0 0 (count + 1))
          as (z' & di' & i' & Heq & Hi' & Hdi'' & Hval); [lia | cbn; lia |].
        exists z', di', i'. rewrite Heq. rewrite Hfull in Hpow.
        repeat split; try lia; rewrite Hval, Hpow; cbn [Z.pow]; ring.
      * destruct (IH z (di * 16 + digit_of ch) (i + 1) (count + 1))
          as (z' & di' & i' & Heq & Hi' & Hdi'' & Hval); [lia | lia |].
        exists z', di', i'. rewrite Heq.
        repeat split; try lia; rewrite Hval, Hpow; ring.
    + pose proof (digit_val_not_hex ch Hch) as Hd.
      rewrite (hex_prefix_cons_other ch r Hch). cbn [fst snd].
      rewrite Z.geb_leb.
      destruct (Z.leb_spec 16 (big.digit_val 16 ch)) as [_|Hbad]; [|lia].
      exists z, di, i. cbn. repeat split; try lia. f_equal. f_equal. lia.
Qed.

(** [nat.scan] in base 16 returns the value of the longest digit prefix and
    leaves the rest unread; it fails exactly when that prefix is empty. *)
Lemma nat_scan_16 r :
  big.nat_scan r 16
  = if nonempty (fst (hex_prefix r))
    then Some (hex_value (fst (hex_prefix r)), snd (hex_prefix r))
    else None.
Proof.
  unfold big.nat_scan. rewrite maxPow_16.
  destruct (scan_loop_16 r 0 0 0 0) as (z & di & i & Heq & Hi & Hdi & Hval);
    [lia | cbn; lia |].
  rewrite Heq. clear Heq.
  destruct (fst (hex_prefix r)) as [|ch p] eqn:Hp.
  - reflexivity.
  - cbn [nonempty].
    destruct (Z.eqb_spec (0 + Z.of_nat (String.length (String ch p))) 0)
      as [H0|_]; [cbn [String.length] in H0; lia|].
    assert (Hv : z * 16 ^ i + di = hex_value (String ch p))
      by (rewrite Hval; ring).
    f_equal. f_equal. rewrite <- Hv.
    destruct (Z.ltb_spec 0 i) as [Hpos|Hzero].
    + rewrite wrap_uint64_small; [reflexivity|].
      split; [apply Z.pow_nonneg; lia|].
      apply Z.le_lt_trans with (16 ^ 15); [apply Z.pow_le_mono_r; lia | reflexivity].
    + assert (i = 0) by lia. subst i. cbn in Hdi |- *. lia.
Qed.

Lemma scanSign_split s :
  big.scanSign s
  = match s with EmptyString => None | String _ _ => Some (split_sign s) end.
Proof.
  destruct s as [|ch r]; [reflexivity|].
  destruct ch as [[] [] [] [] [] [] [] []]; reflexivity.
Qed.

Lemma hex_prefix_all_hex d : all_hex d = true -> hex_prefix d = (d, EmptyString).
Proof.
  induction d as [|ch d IH]; [reflexivity|]. cbn [all_hex].
  intros H. apply andb_true_iff in H as [Hch Hd].
  rewrite (hex_prefix_cons_hex _ _ Hch), (IH Hd). reflexivity.
Qed.

Lemma hex_prefix_not_all_hex d :
  all_hex d = false -> nonempty (snd (hex_prefix d)) = true.
Proof.
  induction d as [|ch d IH]; [discriminate|]. cbn [all_hex].
  destruct (is_hex_digit ch) eqn:Hch; cbn [andb]; intros H.
  - rewrite (hex_prefix_cons_hex _ _ Hch). cbn [snd]. auto.
  - rewrite (hex_prefix_cons_other _ _ Hch). reflexivity.
Qed.

(** [SetString] in base 16 accepts exactly: one optional sign, then one or
    more hexadecimal digits, and nothing else. *)
Lemma SetString_16 s :
  big.SetString s 16
  = let '(ng, d) := split_sign s in
    if nonempty d && all_hex d
    then Some (big.mkInt ((0 <? hex_value d) && ng) (hex_value d))
    else None.
Proof.
  unfold big.SetString, big.Int_scan. rewrite scanSign_split.
  destruct s as [|ch r]; [reflexivity|].
  destruct (split_sign (String ch r)) as [ng d]. rewrite nat_scan_16.
  destruct (all_hex d) eqn:Hall.
  - rewrite (hex_prefix_all_hex d Hall). cbn [fst snd].
    destruct (nonempty d); reflexivity.
  - rewrite andb_false_r. pose proof (hex_prefix_not_all_hex d Hall) as Hrest.
    destruct (nonempty (fst (hex_prefix d))); [|reflexivity].
    destruct (snd (hex_prefix d)); [discriminate | reflexivity].
Qed.

Lemma hex_value_nonneg d : 0 <= hex_value d.
Proof.
  induction d as [|ch d IH]; cbn [hex_value]; [lia|].
  assert (0 <= digit_of ch)
    by (unfold digit_of; pose proof (digit_val_16 ch); destruct (hex_digit ch); lia).
  assert (0 <= 16 ^ Z.of_nat (String.length d)) by (apply Z.pow_nonneg; lia).
  nia.
Qed.

(** [IsInt64] decides membership in the signed 64-bit range, and [Int64] is
    then the value itself. *)
Lemma IsInt64_spec x :
  0 <= big.abs x ->
  big.IsInt64 x = true <-> GoInt.in_int64 (big.value x).
Proof.
  destruct x as [ng a]. unfold big.IsInt64, big.value, big.low64, GoInt.in_int64,
    GoInt.min_int64, GoInt.max_int64, GoInt.wrap_int64, GoInt.wrap_uint64.
  cbn [big.neg big.abs]. intros Ha.
  destruct (Z.ltb_spec a (2 ^ 64)) as [Hlt|Hge].
  - rewrite (Z.mod_small a) by lia.
    destruct (Z.ltb_spec a (2 ^ 63)) as [Hs|Hb].
    + rewrite (Z.mod_small (a + 2 ^ 63)) by lia.
      replace (a + 2 ^ 63 - 2 ^ 63 >=? 0) with true
        by (symmetry; rewrite Z.geb_leb; apply Z.leb_le; lia).
      cbn [orb]. destruct ng; split; intros; try reflexivity; lia.
    + replace ((a + 2 ^ 63) mod 2 ^ 64) with (a - 2 ^ 63)
        by (apply (Z.mod_unique _ _ 1); [left; lia | lia]).
      replace (a - 2 ^ 63 - 2 ^ 63 >=? 0) with false
        by (symmetry; rewrite Z.geb_leb; apply Z.leb_gt; lia).
      cbn [orb]. destruct ng; cbn [andb].
      * destruct (Z.eq_dec a (2 ^ 63)) as [->|Hne]; [split; [lia|reflexivity]|].
        replace ((- (a - 2 ^ 63 - 2 ^ 63) + 2 ^ 63) mod 2 ^ 64)
          with (- (a - 2 ^ 63 - 2 ^ 63) + 2 ^ 63)
          by (symmetry; apply Z.mod_small; lia).
        split; intros H; [apply Z.eqb_eq in H; lia | lia].
      * split; [discriminate | lia].
  - split; [discriminate|]. destruct ng; lia.
Qed.

Lemma Int64_spec x :
  0 <= big.abs x -> GoInt.in_int64 (big.value x) -> big.Int64 x = big.value x.
Proof.
  destruct x as [ng a]. unfold big.Int64, big.value, big.low64.
  cbn [big.neg big.abs]. intros Ha Hr.
  assert (Hlt : a < 2 ^ 64)
    by (unfold GoInt.in_int64, GoInt.min_int64, GoInt.max_int64 in Hr;
        destruct ng; lia).
  rewrite wrap_uint64_small by lia.
  destruct ng.
  - destruct (Z.eq_dec a (2 ^ 63)) as [->|Hne]; [reflexivity|].
    rewrite (wrap_int64_small a), wrap_int64_small; [reflexivity| |];
      unfold GoInt.in_int64, GoInt.min_int64, GoInt.max_int64 in *; lia.
  - now apply wrap_int64_small.
Qed.

(** ** Facts about [hexToInt64] *)

Lemma substring_whole s : substring 0 (String.length s) s = s.
Proof. induction s as [|ch s IH]; cbn; [reflexivity | now rewrite IH]. Qed.

Lemma strip0x_0x d : strip0x (String "0" (String "x" d)) = d.
Proof.
  unfold strip0x. cbn [String.length Nat.leb andb substring].
  change (String.eqb (String "0" (String "x" (substring 0 0 d))) "0x")
    with (String.eqb (substring 0 0 d) "").
  replace (substring 0 0 d) with EmptyString by (now destruct d).
  cbn [String.eqb Nat.sub]. rewrite Nat.sub_0_r. apply substring_whole.
Qed.

Lemma strip0x_id s :
  (forall d, s <> String "0" (String "x" d)) -> strip0x s = s.
Proof.
  intros Hs. unfold strip0x.
  destruct s as [|a [|b r]]; try reflexivity.
  cbn [String.length Nat.leb andb substring Nat.sub].
  replace (substring 0 0 r) with EmptyString by (now destruct r).
  destruct (String.eqb_spec (String a (String b "")) "0x") as [E|_];
    [|reflexivity].
  injection E as -> ->. now destruct (Hs r).
Qed.

Lemma strip0x_digits d : all_hex d = true -> strip0x d = d.
Proof.
  intros Hd. apply strip0x_id. intros d' ->. cbn in Hd. discriminate.
Qed.

(** What [hexToInt64] computes, in terms of the numeral it is given. *)
Lemma hexToInt64_charact s :
  hexToInt64 s
  = let r := strip0x s in
    let '(ng, d) := split_sign r in
    if nonempty d && all_hex d then
      let v := if ng then - hex_value d else hex_value d in
      if (GoInt.min_int64 <=? v) && (v <=? GoInt.max_int64) then inl v
      else inr (err_too_large r)
    else inr (err_parse r).
Proof.
  unfold hexToInt64. cbv zeta. rewrite SetString_16.
  destruct (split_sign (strip0x s)) as [ng d].
  destruct (nonempty d && all_hex d); [|reflexivity].
  pose proof (hex_value_nonneg d) as Hnn.
  set (x := big.mkInt ((0 <? hex_value d) && ng) (hex_value d)).
  assert (Hval : big.value x = if ng then - hex_value d else hex_value d).
  { unfold big.value, x. cbn [big.neg big.abs].
    destruct ng; [|now rewrite andb_false_r].
    rewrite andb_true_r. destruct (Z.ltb_spec 0 (hex_value d)); lia. }
  rewrite <- Hval.
  pose proof (IsInt64_spec x Hnn) as Hspec.
  destruct (big.IsInt64 x) eqn:His; cbn [negb].
  - assert (Hr : GoInt.in_int64 (big.value x)) by now apply Hspec.
    rewrite (Int64_spec x Hnn Hr). destruct Hr as [Hlo Hhi].
    apply Z.leb_le in Hlo, Hhi. now rewrite Hlo, Hhi.
  - destruct ((GoInt.min_int64 <=? big.value x)
                && (big.value x <=? GoInt.max_int64)) eqn:Hin; [|reflexivity].
    apply andb_true_iff in Hin as [Hlo Hhi]. apply Z.leb_le in Hlo, Hhi.
    assert (false = true) by (apply Hspec; split; assumption).
    discriminate.
Qed.

Lemma split_sign_digits d : all_hex d = true -> split_sign d = (false, d).
Proof.
  intros H. destruct d as [|ch r]; [reflexivity|].
  destruct ch as [[] [] [] [] [] [] [] []]; try reflexivity;
    cbn in H; discriminate.
Qed.

(** On a well-formed numeral, with or without [0x]: the value if it fits,
    the range error otherwise. *)
Lemma hexToInt64_digits d :
  digits_ok d ->
  let result :=
    if hex_value d <=? GoInt.max_int64 then inl (hex_value d)
    else inr (err_too_large d) in
  hexToInt64 d = result /\ hexToInt64 ("0x" ++ d) = result.
Proof.
  intros [Hne Hall]. cbv zeta.
  assert (Hmin : (GoInt.min_int64 <=? hex_value d) = true)
    by (apply Z.leb_le; pose proof (hex_value_nonneg d);
        unfold GoInt.min_int64; lia).
  split; rewrite hexToInt64_charact; cbv zeta.
  - rewrite (strip0x_digits d Hall), (split_sign_digits d Hall), Hne, Hall, Hmin.
    reflexivity.
  - change ("0x" ++ d)%string with (String "0" (String "x" d)).
    rewrite strip0x_0x, (split_sign_digits d Hall), Hne, Hall, Hmin.
    reflexivity.
Qed.

(** ** The claims about [hexToInt64] *)

(** C4, as stated, fails: in ["-ff"] the character ['-'] is outside
    [[0-9a-fA-F]] and there is no [0x] to strip, yet [hexToInt64] returns
    [-255] instead of the parse error. *)
Lemma hexToInt64_rejects_non_hex_counterexample :
  let s := "-ff"%string in
  (strip0x s = EmptyString \/ all_hex (strip0x s) = false)
  /\ hexToInt64 s = inl (-255)
  /\ hexToInt64 s <> inr (err_parse (strip0x s)).
Proof.
  cbv zeta. split; [right; vm_compute; reflexivity|].
  split; [vm_compute; reflexivity | vm_compute; discriminate].
Qed.

(** C4, amended: if, after stripping an optional leading lowercase [0x] and
    then one optional leading sign [+] or [-], what remains is empty or
    contains a character outside [[0-9a-fA-F]], then [hexToInt64] fails with
    the parse error, whose text carries the string without its [0x]. *)
Theorem hexToInt64_malformed s :
  (snd (split_sign (strip0x s)) = EmptyString
   \/ all_hex (snd (split_sign (strip0x s))) = false) ->
  hexToInt64 s = inr (err_parse (strip0x s)).
Proof.
  intros H. rewrite hexToInt64_charact. cbv zeta.
  destruct (split_sign (strip0x s)) as [ng d]. cbn [snd] in H.
  destruct H as [-> | ->]; [reflexivity | now rewrite andb_false_r].
Qed.

Lemma hexToInt64_malformed_witness :
  hexToInt64 "0x12g4" = inr (err_parse "12g4").
Proof.
  apply (hexToInt64_malformed "0x12g4"). right. vm_compute. reflexivity.
Defined.

(** C5: on an optional lowercase [0x] followed by one or more hexadecimal
    digits whose base-16 value is at most [2^63 - 1], [hexToInt64] succeeds
    and returns exactly that value, which is a signed 64-bit integer. *)
Theorem hexToInt64_value d :
  digits_ok d ->
  hex_value d <= GoInt.max_int64 ->
  hexToInt64 d = inl (hex_value d)
  /\ hexToInt64 ("0x" ++ d) = inl (hex_value d)
  /\ GoInt.in_int64 (hex_value d).
Proof.
  intros Hd Hmax. pose proof (hexToInt64_digits d Hd) as H. cbv zeta in H.
  apply Z.leb_le in Hmax. rewrite Hmax in H. destruct H as [H1 H2].
  split; [exact H1|]. split; [exact H2|]. split.
  - pose proof (hex_value_nonneg d). unfold GoInt.min_int64. lia.
  - now apply Z.leb_le.
Qed.

Lemma hexToInt64_value_witness :
  hexToInt64 "1b4F" = inl 6991 /\ hexToInt64 "0x1b4F" = inl 6991
  /\ GoInt.in_int64 6991.
Proof.
  apply (hexToInt64_value "1b4F").
  - split; vm_compute; reflexivity.
  - vm_compute. discriminate.
Defined.

(** C6: [0x7fffffffffffffff] gives [2^63 - 1]; [0x8000000000000000] fails
    with the range error; and every well-formed numeral whose value exceeds
    [2^63 - 1] fails with the range error, no truncated value is returned. *)
Theorem hexToInt64_range :
  hexToInt64 "0x7fffffffffffffff" = inl (2 ^ 63 - 1)
  /\ hexToInt64 "0x8000000000000000" = inr (err_too_large "8000000000000000")
  /\ forall d, digits_ok d -> GoInt.max_int64 < hex_value d ->
       hexToInt64 d = inr (err_too_large d)
       /\ hexToInt64 ("0x" ++ d) = inr (err_too_large d).
Proof.
  split; [vm_compute; reflexivity|]. split; [vm_compute; reflexivity|].
  intros d Hd Hbig. pose proof (hexToInt64_digits d Hd) as H. cbv zeta in H.
  apply Z.leb_gt in Hbig. now rewrite Hbig in H.
Qed.

Lemma hexToInt64_range_witness :
  hexToInt64 "10000000000000000000" = inr (err_too_large "10000000000000000000")
  /\ hexToInt64 "0x10000000000000000000"
     = inr (err_too_large "10000000000000000000").
Proof.
  apply (proj2 (proj2 hexToInt64_range) "10000000000000000000").
  - split; vm_compute; reflexivity.
  - vm_compute. reflexivity.
Defined.

(** C8: [hexToInt64] fails with the parse error on ["0x"], [""] and
    ["0xzz"]. *)
Theorem hexToInt64_malformed_examples :
  hexToInt64 "0x" = inr (err_parse "")
  /\ hexToInt64 "" = inr (err_parse "")
  /\ hexToInt64 "0xzz" = inr (err_parse "zz").
Proof.
  split; [vm_compute; reflexivity|].
  split; vm_compute; reflexivity.
Qed.

(** C9: ["-ff"] and ["0x-1"] contain a character outside [[0-9a-fA-F]], and
    [hexToInt64] returns the negative [int64]s [-255] and [-1] on them,
    because [SetString] in base 16 takes a leading sign; so a successful
    result need not be non-negative. *)
Theorem hexToInt64_accepts_sign :
  all_hex "-ff" = false /\ all_hex (strip0x "0x-1") = false
  /\ big.SetString "-ff" 16 = Some (big.mkInt true 255)
  /\ hexToInt64 "-ff" = inl (-255) /\ hexToInt64 "0x-1" = inl (-1)
  /\ GoInt.in_int64 (-255) /\ GoInt.in_int64 (-1)
  /\ ~ (forall s v, hexToInt64 s = inl v -> 0 <= v).
Proof.
  do 5 (split; [vm_compute; reflexivity|]).
  split; [split; vm_compute; discriminate|].
  split; [split; vm_compute; discriminate|].
  intros H.
  assert (Hff : hexToInt64 "-ff" = inl (-255)) by (vm_compute; reflexivity).
  specialize (H _ _ Hff). lia.
Qed.

(** ** Facts about [pluginFeature] *)

(** The three paths through one call. *)
Lemma pluginFeature_failed info w g pre e :
  failure_of w = Some (pre, e) ->
  pluginFeature info w g
  = (mkCallResponse (GetStringValue (info "execute_method"%string))
       (pre ++ e) SEVERITY_CRITICAL STATE_FAILURE,
     Some e, g).
Proof.
  unfold failure_of, pluginFeature.
  destruct w as [err|err|resp].
  - intros [= <- <-]. reflexivity.
  - intros [= <- <-]. reflexivity.
  - destruct (hexToInt64 (Result resp)) as [h|err]; [discriminate|].
    intros [= <- <-]. reflexivity.
Qed.

Lemma pluginFeature_increasing info resp g h :
  hexToInt64 (Result resp) = inl h ->
  prevHeight g < h ->
  pluginFeature info (Unmarshalled resp) g
  = (mkCallResponse (GetStringValue (info "execute_method"%string))
       ("Block height increasing. Current height: " ++ fmt_d h)
       SEVERITY_INFO STATE_SUCCESS,
     None, mkGlobals h 0 (criticalCount g)).
Proof.
  intros Hh Hlt. unfold pluginFeature. rewrite Hh.
  replace (h >? prevHeight g) with true
    by (symmetry; rewrite Z.gtb_ltb; now apply Z.ltb_lt).
  reflexivity.
Qed.

Lemma pluginFeature_stalled info resp g h :
  hexToInt64 (Result resp) = inl h ->
  h <= prevHeight g ->
  let count := GoInt.wrap_int (warningCount g + 1) in
  pluginFeature info (Unmarshalled resp) g
  = (mkCallResponse (GetStringValue (info "execute_method"%string))
       (if count >? criticalCount g
        then "Block height stuck more than " ++ fmt_d (criticalCount g)
               ++ " times. Current height: " ++ fmt_d h
        else "Block height stuck " ++ fmt_d count
               ++ " times. Current height: " ++ fmt_d h)
       (if count >? criticalCount g then SEVERITY_CRITICAL else SEVERITY_WARNING)
       STATE_SUCCESS,
     None, mkGlobals h count (criticalCount g)).
Proof.
  intros Hh Hle. cbv zeta. unfold pluginFeature. rewrite Hh.
  replace (h >? prevHeight g) with false
    by (symmetry; rewrite Z.gtb_ltb; apply Z.ltb_ge; lia).
  destruct (GoInt.wrap_int (warningCount g + 1) >? criticalCount g); reflexivity.
Qed.

Lemma observed_failure_of w :
  match observed w with
  | Some _ => failure_of w = None
  | None => exists pre e, failure_of w = Some (pre, e)
  end.
Proof.
  unfold observed, failure_of. destruct w as [err|err|resp]; eauto.
  destruct (hexToInt64 (Result resp)); eauto.
Qed.

Lemma run_cons info w ticks g :
  run ((info, w) :: ticks) g
  = (fst (pluginFeature info w g)
       :: fst (run ticks (snd (pluginFeature info w g))),
     snd (run ticks (snd (pluginFeature info w g)))).
Proof.
  cbn [run]. destruct (pluginFeature info w g) as [[ret err] g1].
  cbn [fst snd]. now destruct (run ticks g1).
Qed.

Lemma run_app t1 t2 g :
  run (t1 ++ t2)%list g
  = ((fst (run t1 g) ++ fst (run t2 (snd (run t1 g))))%list,
     snd (run t2 (snd (run t1 g)))).
Proof.
  revert g. induction t1 as [|[info w] t1 IH]; intros g.
  - cbn [app run fst snd]. now destruct (run t2 g).
  - rewrite <- app_comm_cons, !run_cons, IH. reflexivity.
Qed.

Lemma hexToInt64_zero : hexToInt64 "0x0" = inl 0.
Proof. vm_compute. reflexivity. Qed.

(** With the default flags, a node that keeps answering [0x0] takes the
    stall counter through every value of [int] from 0 upwards. *)
Lemma reachable_stall_count k :
  0 <= k <= GoInt.max_int ->
  reachable init_globals (mkGlobals 0 k defaultCriticalCount).
Proof.
  intros [H0 Hmax]. revert Hmax. pattern k. apply natlike_ind; [| |exact H0].
  - intros _. apply reach_start.
  - intros x Hx IH Hmax.
    pose proof (reach_call init_globals no_info (answer "0x0") _
                  (IH ltac:(lia))) as R.
    unfold answer in R.
    rewrite (pluginFeature_stalled no_info
               (mkBlockHeightResponse "2.0" "0x0" 1)
               (mkGlobals 0 x defaultCriticalCount) 0 hexToInt64_zero) in R
      by (cbn [prevHeight]; lia).
    cbn [snd warningCount criticalCount] in R.
    rewrite wrap_int_small in R; [exact R|].
    unfold GoInt.in_int, GoInt.min_int, GoInt.min_int64. lia.
Qed.

(** ** The claims about [pluginFeature] *)

(** C1, as stated, fails where [warningCount] holds the largest [int]: the
    observed height 0 does not exceed [prevHeight = 0], but [warningCount++]
    wraps to the smallest [int] instead of adding 1, and the call reports
    WARNING although [warningCount + 1] exceeds [criticalCount].  These
    variables are reached from the initial ones. *)
Lemma stall_count_overflow_counterexample :
  let g := mkGlobals 0 GoInt.max_int defaultCriticalCount in
  let out := pluginFeature no_info (answer "0x0") g in
  reachable init_globals g
  /\ observed (answer "0x0") = Some 0 /\ 0 <= prevHeight g
  /\ warningCount (snd out) = GoInt.min_int
  /\ warningCount (snd out) <> warningCount g + 1
  /\ (warningCount g + 1 >? criticalCount g) = true
  /\ Severity (fst (fst out)) = SEVERITY_WARNING.
Proof.
  cbv zeta. split.
  - apply reachable_stall_count. unfold GoInt.max_int, GoInt.max_int64. lia.
  - split; [vm_compute; reflexivity|]. split; [cbn; lia|].
    split; [vm_compute; reflexivity|]. split; [vm_compute; discriminate|].
    split; vm_compute; reflexivity.
Qed.

(** C1, amended: when the observed height does not exceed [prevHeight]
    (the first call, where [prevHeight] is 0, included) and [warningCount] is
    below the largest value of [int], the call adds exactly 1 to
    [warningCount], reports CRITICAL if the new count is strictly greater
    than [criticalCount] and WARNING otherwise, with state SUCCESS and no
    error, and sets [prevHeight] to the observed height. *)
Theorem pluginFeature_stall info resp g h :
  hexToInt64 (Result resp) = inl h ->
  h <= prevHeight g ->
  GoInt.min_int <= warningCount g < GoInt.max_int ->
  let '(ret, err, g') := pluginFeature info (Unmarshalled resp) g in
  warningCount g' = warningCount g + 1
  /\ Severity ret = (if warningCount g' >? criticalCount g
                     then SEVERITY_CRITICAL else SEVERITY_WARNING)
  /\ prevHeight g' = h
  /\ criticalCount g' = criticalCount g
  /\ State ret = STATE_SUCCESS /\ err = None.
Proof.
  intros Hh Hle Hcount.
  pose proof (pluginFeature_stalled info resp g h Hh Hle) as E.
  cbv zeta in E. rewrite E. clear E.
  rewrite wrap_int_small by (unfold GoInt.in_int; lia).
  cbn [warningCount prevHeight criticalCount Severity State].
  repeat split.
Qed.

Lemma pluginFeature_stall_witness :
  let '(ret, err, g') := pluginFeature no_info (answer "0x0") init_globals in
  warningCount g' = 0 + 1
  /\ Severity ret = (if warningCount g' >? 3
                     then SEVERITY_CRITICAL else SEVERITY_WARNING)
  /\ prevHeight g' = 0
  /\ criticalCount g' = 3
  /\ State ret = STATE_SUCCESS /\ err = None.
Proof.
  apply (pluginFeature_stall no_info (mkBlockHeightResponse "2.0" "0x0" 1)
           init_globals 0).
  - vm_compute. reflexivity.
  - cbn. lia.
  - vm_compute. split; [discriminate | reflexivity].
Defined.

(** C2: when the observed height is strictly greater than [prevHeight], the
    call reports INFO with state SUCCESS and no error, resets [warningCount]
    to 0 and sets [prevHeight] to the observed height. *)
Theorem pluginFeature_advance info resp g h :
  hexToInt64 (Result resp) = inl h ->
  prevHeight g < h ->
  let '(ret, err, g') := pluginFeature info (Unmarshalled resp) g in
  Severity ret = SEVERITY_INFO /\ State ret = STATE_SUCCESS /\ err = None
  /\ Message ret = ("Block height increasing. Current height: " ++ fmt_d h)%string
  /\ warningCount g' = 0 /\ prevHeight g' = h
  /\ criticalCount g' = criticalCount g.
Proof.
  intros Hh Hlt. rewrite (pluginFeature_increasing info resp g h Hh Hlt).
  cbn [warningCount prevHeight criticalCount Severity State Message].
  repeat split.
Qed.

Lemma pluginFeature_advance_witness :
  let '(ret, err, g') :=
    pluginFeature no_info (answer "0x65") (mkGlobals 100 2 3) in
  Severity ret = SEVERITY_INFO /\ State ret = STATE_SUCCESS /\ err = None
  /\ Message ret = "Block height increasing. Current height: 101"%string
  /\ warningCount g' = 0 /\ prevHeight g' = 101
  /\ criticalCount g' = 3.
Proof.
  apply (pluginFeature_advance no_info (mkBlockHeightResponse "2.0" "0x65" 1)
           (mkGlobals 100 2 3) 101).
  - vm_compute. reflexivity.
  - cbn. lia.
Defined.

(** C3: when the POST fails, the body cannot be decoded, or [hexToInt64]
    fails, the call returns CRITICAL with state FAILURE, a message that
    embeds the error, and the error itself; [prevHeight] and [warningCount]
    are left as they were, so that in any sequence of calls the failed one
    can be erased without changing the other results or the final
    variables. *)
Theorem pluginFeature_failure info w g pre e :
  failure_of w = Some (pre, e) ->
  let failed :=
    mkCallResponse (GetStringValue (info "execute_method"%string))
      (pre ++ e) SEVERITY_CRITICAL STATE_FAILURE in
  pluginFeature info w g = (failed, Some e, g)
  /\ embeds (Message failed) e
  /\ forall before after g0,
       run (before ++ (info, w) :: after)%list g0
       = ((fst (run before g0)
             ++ (failed, Some e) :: fst (run after (snd (run before g0))))%list,
          snd (run (before ++ after)%list g0))
       /\ fst (run (before ++ after)%list g0)
          = (fst (run before g0) ++ fst (run after (snd (run before g0))))%list.
Proof.
  intros Hw. cbv zeta. split; [now apply pluginFeature_failed|].
  split.
  - exists pre, EmptyString. cbn [Message].
    f_equal. clear. induction e as [|ch e IH]; cbn; [reflexivity | now rewrite <- IH].
  - intros before after g0.
    rewrite !run_app, run_cons, (pluginFeature_failed info w _ pre e Hw).
    cbn [fst snd]. split; reflexivity.
Qed.

Lemma pluginFeature_failure_witness :
  pluginFeature no_info (answer "0xzz") (mkGlobals 100 2 3)
  = (mkCallResponse ""
       "Failed to convert hex to int64: failed to parse hex string: zz"
       SEVERITY_CRITICAL STATE_FAILURE,
     Some "failed to parse hex string: zz"%string, mkGlobals 100 2 3).
Proof.
  apply (pluginFeature_failure no_info (answer "0xzz") (mkGlobals 100 2 3)
           "Failed to convert hex to int64: " "failed to parse hex string: zz").
  vm_compute. reflexivity.
Defined.

(** C7: from [warningCount = 0] with [criticalCount = 3], four calls in a
    row that each observe a height not above the current [prevHeight] bring
    [warningCount] to 4; the first three report WARNING and the fourth
    CRITICAL. *)
Theorem four_stalls_reach_critical p i1 i2 i3 i4 r1 r2 r3 r4 h1 h2 h3 h4 :
  hexToInt64 (Result r1) = inl h1 -> hexToInt64 (Result r2) = inl h2 ->
  hexToInt64 (Result r3) = inl h3 -> hexToInt64 (Result r4) = inl h4 ->
  h1 <= p -> h2 <= h1 -> h3 <= h2 -> h4 <= h3 ->
  let '(rets, g') :=
    run [(i1, Unmarshalled r1); (i2, Unmarshalled r2);
         (i3, Unmarshalled r3); (i4, Unmarshalled r4)] (mkGlobals p 0 3) in
  map (fun r => Severity (fst r)) rets
  = [SEVERITY_WARNING; SEVERITY_WARNING; SEVERITY_WARNING; SEVERITY_CRITICAL]
  /\ map (fun r => State (fst r)) rets
     = [STATE_SUCCESS; STATE_SUCCESS; STATE_SUCCESS; STATE_SUCCESS]
  /\ warningCount g' = 4 /\ prevHeight g' = h4.
Proof.
  intros E1 E2 E3 E4 L1 L2 L3 L4. cbn [run].
  pose proof (pluginFeature_stalled i1 r1 (mkGlobals p 0 3) h1 E1 L1) as S1.
  cbv zeta in S1. rewrite S1. clear S1.
  change (GoInt.wrap_int (warningCount (mkGlobals p 0 3) + 1)) with 1.
  cbn [criticalCount].
  pose proof (pluginFeature_stalled i2 r2 (mkGlobals h1 1 3) h2 E2 L2) as S2.
  cbv zeta in S2. rewrite S2. clear S2.
  change (GoInt.wrap_int (warningCount (mkGlobals h1 1 3) + 1)) with 2.
  cbn [criticalCount].
  pose proof (pluginFeature_stalled i3 r3 (mkGlobals h2 2 3) h3 E3 L3) as S3.
  cbv zeta in S3. rewrite S3. clear S3.
  change (GoInt.wrap_int (warningCount (mkGlobals h2 2 3) + 1)) with 3.
  cbn [criticalCount].
  pose proof (pluginFeature_stalled i4 r4 (mkGlobals h3 3 3) h4 E4 L4) as S4.
  cbv zeta in S4. rewrite S4. clear S4.
  change (GoInt.wrap_int (warningCount (mkGlobals h3 3 3) + 1)) with 4.
  cbn [criticalCount].
  change (1 >? 3) with false. change (2 >? 3) with false.
  change (3 >? 3) with false. change (4 >? 3) with true.
  cbn [map fst Severity State warningCount prevHeight].
  repeat split.
Qed.

Lemma four_stalls_reach_critical_witness :
  let '(rets, g') :=
    run [(no_info, answer "0x64"); (no_info, answer "0x64");
         (no_info, answer "0x63"); (no_info, answer "0x63")]
      (mkGlobals 100 0 3) in
  map (fun r => Severity (fst r)) rets
  = [SEVERITY_WARNING; SEVERITY_WARNING; SEVERITY_WARNING; SEVERITY_CRITICAL]
  /\ map (fun r => State (fst r)) rets
     = [STATE_SUCCESS; STATE_SUCCESS; STATE_SUCCESS; STATE_SUCCESS]
  /\ warningCount g' = 4 /\ prevHeight g' = 99.
Proof.
  apply (four_stalls_reach_critical 100 no_info no_info no_info no_info
           (mkBlockHeightResponse "2.0" "0x64" 1)
           (mkBlockHeightResponse "2.0" "0x64" 1)
           (mkBlockHeightResponse "2.0" "0x63" 1)
           (mkBlockHeightResponse "2.0" "0x63" 1) 100 100 99 99);
    try (vm_compute; reflexivity); lia.
Defined.

(** C10: whatever the outside world answers and whatever the variables hold,
    the returned severity is INFO, WARNING or CRITICAL and the returned state
    is SUCCESS or FAILURE; the initial UNKNOWN and NONE are never returned.
    The state is FAILURE exactly when an error is returned with it. *)
Theorem pluginFeature_severity_state info w g :
  let '(ret, err, _) := pluginFeature info w g in
  (Severity ret = SEVERITY_INFO \/ Severity ret = SEVERITY_WARNING
   \/ Severity ret = SEVERITY_CRITICAL)
  /\ (State ret = STATE_SUCCESS \/ State ret = STATE_FAILURE)
  /\ Severity ret <> SEVERITY_UNKNOWN /\ State ret <> STATE_NONE
  /\ (State ret = STATE_FAILURE <-> err <> None).
Proof.
  pose proof (observed_failure_of w) as Hw.
  destruct (observed w) as [h|] eqn:Hobs.
  - unfold observed in Hobs. destruct w as [err|err|resp]; try discriminate.
    destruct (hexToInt64 (Result resp)) as [h'|] eqn:Hh; [|discriminate].
    injection Hobs as ->.
    destruct (Z.lt_ge_cases (prevHeight g) h) as [Hlt|Hge].
    + rewrite (pluginFeature_increasing info resp g h Hh Hlt).
      cbn [Severity State]. intuition (discriminate || congruence).
    + pose proof (pluginFeature_stalled info resp g h Hh Hge) as E.
      cbv zeta in E. rewrite E. cbn [Severity State].
      destruct (GoInt.wrap_int (warningCount g + 1) >? criticalCount g);
        intuition (discriminate || congruence).
  - destruct Hw as (pre & e & Hw).
    rewrite (pluginFeature_failed info w g pre e Hw). cbn [Severity State].
    intuition (discriminate || congruence).
Qed.

(** ** Further facts about numerals *)

Lemma append_empty_r s : (s ++ "")%string = s.
Proof. induction s as [|ch s IH]; cbn; [reflexivity | now rewrite IH]. Qed.

Lemma embeds_suffix pre e : embeds (pre ++ e) e.
Proof. exists pre, EmptyString. now rewrite append_empty_r. Qed.

Lemma hexToInt64_unparsed s :
  all_hex (snd (split_sign (strip0x s))) = false ->
  hexToInt64 s = inr (err_parse (strip0x s)).
Proof.
  intros H. rewrite hexToInt64_charact. cbv zeta.
  destruct (split_sign (strip0x s)) as [ng d]. cbn [snd] in H.
  now rewrite H, andb_false_r.
Qed.

Lemma all_hex_app s t : all_hex (s ++ t) = all_hex s && all_hex t.
Proof.
  induction s as [|ch s IH]; cbn [append all_hex]; [reflexivity|].
  now rewrite IH, andb_assoc.
Qed.

Lemma hex_value_zeros n d : hex_value (zeros n ++ d) = hex_value d.
Proof.
  induction n as [|n IH]; [reflexivity|].
  cbn [zeros append hex_value]. rewrite IH.
  change (digit_of "0") with 0. lia.
Qed.

Lemma all_hex_zeros n : all_hex (zeros n) = true.
Proof. induction n as [|n IH]; [reflexivity|]. cbn [zeros all_hex]. now rewrite IH. Qed.

Lemma upper_char_hex ch :
  is_hex_digit ch = true ->
  is_hex_digit (upper_char ch) = true /\ digit_of (upper_char ch) = digit_of ch.
Proof.
  destruct ch as [[] [] [] [] [] [] [] []]; vm_compute;
    intros H; try discriminate H; split; reflexivity.
Qed.

Lemma upper_length s : String.length (upper s) = String.length s.
Proof. induction s as [|ch s IH]; cbn; [reflexivity | now rewrite IH]. Qed.

Lemma upper_digits d :
  all_hex d = true ->
  all_hex (upper d) = true /\ hex_value (upper d) = hex_value d.
Proof.
  induction d as [|ch d IH]; [intros _; split; reflexivity|].
  cbn [all_hex upper hex_value]. intros H.
  apply andb_true_iff in H as [Hch Hd].
  destruct (upper_char_hex ch Hch) as [Hu Hv].
  destruct (IH Hd) as [IHa IHv].
  rewrite Hu, IHa, Hv, IHv, upper_length. split; reflexivity.
Qed.

Lemma hex_char_digit d :
  0 <= d < 16 ->
  is_hex_digit (hex_char d) = true /\ digit_of (hex_char d) = d.
Proof.
  intros H.
  assert (Hd : d = 0 \/ d = 1 \/ d = 2 \/ d = 3 \/ d = 4 \/ d = 5 \/ d = 6
               \/ d = 7 \/ d = 8 \/ d = 9 \/ d = 10 \/ d = 11 \/ d = 12
               \/ d = 13 \/ d = 14 \/ d = 15) by lia.
  repeat (destruct Hd as [->|Hd]; [split; vm_compute; reflexivity|]).
  subst d. split; vm_compute; reflexivity.
Qed.

(** The digits written by [hex_digits] read back as the number, in front of
    what was already written. *)
Lemma hex_digits_value fuel : forall v acc,
  (0 < fuel)%nat -> 0 <= v < 16 ^ Z.of_nat fuel -> all_hex acc = true ->
  let r := hex_digits fuel v acc in
  all_hex r = true /\ nonempty r = true
  /\ hex_value r = v * 16 ^ Z.of_nat (String.length acc) + hex_value acc.
Proof.
  induction fuel as [|fuel IH]; intros v acc Hf Hv Hacc; [lia|].
  cbv zeta. cbn [hex_digits].
  assert (Hm : 0 <= v mod 16 < 16) by (apply Z.mod_pos_bound; lia).
  destruct (hex_char_digit _ Hm) as [Hc Hd].
  pose proof (Z.div_mod v 16 ltac:(lia)) as Hdm.
  set (acc' := String (hex_char (v mod 16)) acc).
  assert (Hacc' : all_hex acc' = true)
    by (unfold acc'; cbn [all_hex]; now rewrite Hc, Hacc).
  assert (Hval' : hex_value acc'
                  = v mod 16 * 16 ^ Z.of_nat (String.length acc) + hex_value acc)
    by (unfold acc'; cbn [hex_value]; now rewrite Hd).
  destruct (Z.eqb_spec (v / 16) 0) as [Hq|Hq].
  - split; [exact Hacc'|]. split; [reflexivity|]. rewrite Hval'. nia.
  - assert (Hpow : 16 ^ Z.of_nat (S fuel) = 16 * 16 ^ Z.of_nat fuel)
      by (rewrite Nat2Z.inj_succ, Z.pow_succ_r; lia).
    assert (Hq' : 0 <= v / 16 < 16 ^ Z.of_nat fuel).
    { split; [apply Z.div_pos; lia|].
      apply Z.div_lt_upper_bound; lia. }
    assert (Hfuel : (0 < fuel)%nat).
    { destruct fuel; [|lia]. cbn in Hq'. lia. }
    destruct (IH (v / 16) acc' Hfuel Hq' Hacc') as (Ha & Hn & Hr).
    split; [exact Ha|]. split; [exact Hn|]. rewrite Hr, Hval'.
    unfold acc'. cbn [String.length]. rewrite Nat2Z.inj_succ, Z.pow_succ_r by lia.
    nia.
Qed.

(** ** Further properties of [hexToInt64] *)

(** X1: [hexToInt64] succeeds with [v] exactly when the string, without its
    optional [0x] and then without one optional sign, is one or more
    hexadecimal digits, [v] is their base-16 value with that sign, and [v] is
    a signed 64-bit integer. *)
Theorem hexToInt64_success_iff s v :
  hexToInt64 s = inl v <->
  digits_ok (snd (split_sign (strip0x s)))
  /\ v = (if fst (split_sign (strip0x s))
          then - hex_value (snd (split_sign (strip0x s)))
          else hex_value (snd (split_sign (strip0x s))))
  /\ GoInt.in_int64 v.
Proof.
  rewrite hexToInt64_charact. cbv zeta. unfold digits_ok, GoInt.in_int64.
  destruct (split_sign (strip0x s)) as [ng d]. cbn [fst snd].
  set (w := if ng then - hex_value d else hex_value d).
  destruct (nonempty d); cbn [andb];
    [|split; [discriminate | intros [[H _] _]; discriminate H]].
  destruct (all_hex d);
    [|split; [discriminate | intros [[_ H] _]; discriminate H]].
  destruct (Z.leb_spec GoInt.min_int64 w) as [Hlo|Hlo];
    destruct (Z.leb_spec w GoInt.max_int64) as [Hhi|Hhi]; cbn [andb];
    split; try discriminate;
    try (intros [= <-]; repeat split; assumption);
    try (intros (_ & -> & H1 & H2); (reflexivity || lia)).
Qed.

(** X2: a failure of [hexToInt64] is one of two errors, and its text ends
    with the string as it is after the [0x] was stripped: the parse error
    when what follows the optional sign is not one or more hexadecimal
    digits, the range error when it is but the signed value does not fit in
    64 bits. *)
Theorem hexToInt64_error_cases s e :
  hexToInt64 s = inr e ->
  embeds e (strip0x s)
  /\ ((e = err_parse (strip0x s)
       /\ ~ digits_ok (snd (split_sign (strip0x s))))
      \/ (e = err_too_large (strip0x s)
          /\ digits_ok (snd (split_sign (strip0x s)))
          /\ ~ GoInt.in_int64
                 (if fst (split_sign (strip0x s))
                  then - hex_value (snd (split_sign (strip0x s)))
                  else hex_value (snd (split_sign (strip0x s)))))).
Proof.
  rewrite hexToInt64_charact. cbv zeta. unfold digits_ok, GoInt.in_int64.
  destruct (split_sign (strip0x s)) as [ng d]. cbn [fst snd].
  set (w := if ng then - hex_value d else hex_value d).
  destruct (nonempty d) eqn:Hne; cbn [andb].
  - destruct (all_hex d) eqn:Hall.
    + destruct (Z.leb_spec GoInt.min_int64 w) as [Hlo|Hlo];
        destruct (Z.leb_spec w GoInt.max_int64) as [Hhi|Hhi]; cbn [andb];
        try discriminate; intros [= <-];
        (split; [apply embeds_suffix|]); right; repeat split; lia.
    + intros [= <-]. split; [apply embeds_suffix|]. left.
      split; [reflexivity | intros [_ H]; discriminate H].
  - intros [= <-]. split; [apply embeds_suffix|]. left.
    split; [reflexivity | intros [H _]; discriminate H].
Qed.

Lemma hexToInt64_error_cases_witness :
  embeds (err_too_large "-8000000000000001") (strip0x "0x-8000000000000001").
Proof.
  apply (hexToInt64_error_cases "0x-8000000000000001"
           (err_too_large "-8000000000000001")).
  vm_compute. reflexivity.
Defined.

(** X3: the [0x] prefix is stripped once only: a string that starts with
    [0x0x] is never accepted, whatever follows. *)
Theorem hexToInt64_prefix_once s :
  hexToInt64 ("0x0x" ++ s) = inr (err_parse ("0x" ++ s)).
Proof.
  change ("0x0x" ++ s)%string
    with (String "0" (String "x" (String "0" (String "x" s)))).
  rewrite hexToInt64_unparsed; rewrite strip0x_0x; reflexivity.
Qed.

(** X4: an upper-case [0X] is not a prefix: a string that starts with [0X]
    is never accepted. *)
Theorem hexToInt64_uppercase_prefix s :
  hexToInt64 ("0X" ++ s) = inr (err_parse ("0X" ++ s)).
Proof.
  change ("0X" ++ s)%string with (String "0" (String "X" s)).
  assert (Hid : strip0x (String "0" (String "X" s)) = String "0" (String "X" s))
    by (apply strip0x_id; intros d; discriminate).
  rewrite hexToInt64_unparsed; rewrite Hid; reflexivity.
Qed.

(** X5: a sign is taken only after the prefix: a string that starts with
    [-0x] or [+0x] is never accepted. *)
Theorem hexToInt64_sign_before_prefix s :
  hexToInt64 ("-0x" ++ s) = inr (err_parse ("-0x" ++ s))
  /\ hexToInt64 ("+0x" ++ s) = inr (err_parse ("+0x" ++ s)).
Proof.
  split.
  - change ("-0x" ++ s)%string with (String "-" (String "0" (String "x" s))).
    assert (Hid : strip0x (String "-" (String "0" (String "x" s)))
                  = String "-" (String "0" (String "x" s)))
      by (apply strip0x_id; intros d; discriminate).
    rewrite hexToInt64_unparsed; rewrite Hid; reflexivity.
  - change ("+0x" ++ s)%string with (String "+" (String "0" (String "x" s))).
    assert (Hid : strip0x (String "+" (String "0" (String "x" s)))
                  = String "+" (String "0" (String "x" s)))
      by (apply strip0x_id; intros d; discriminate).
    rewrite hexToInt64_unparsed; rewrite Hid; reflexivity.
Qed.

(** X6: a minus sign in front of one or more hexadecimal digits, with or
    without [0x] before it, gives the negated value when the value is at
    most [2^63] and the range error beyond; so [-2^63] is accepted although
    [2^63] is not. *)
Theorem hexToInt64_negative d :
  digits_ok d ->
  let result :=
    if hex_value d <=? 2 ^ 63 then inl (- hex_value d)
    else inr (err_too_large ("-" ++ d)) in
  hexToInt64 ("-" ++ d) = result /\ hexToInt64 ("0x-" ++ d) = result.
Proof.
  intros [Hne Hall]. cbv zeta.
  pose proof (hex_value_nonneg d) as Hnn.
  assert (Hmax : (- hex_value d <=? GoInt.max_int64) = true)
    by (apply Z.leb_le; unfold GoInt.max_int64; lia).
  assert (Hmin : (GoInt.min_int64 <=? - hex_value d) = (hex_value d <=? 2 ^ 63)).
  { unfold GoInt.min_int64.
    destruct (Z.leb_spec (hex_value d) (2 ^ 63));
      [apply Z.leb_le | apply Z.leb_gt]; lia. }
  change ("-" ++ d)%string with (String "-" d).
  change ("0x-" ++ d)%string with (String "0" (String "x" (String "-" d))).
  assert (Hid : strip0x (String "-" d) = String "-" d)
    by (apply strip0x_id; intros d'; discriminate).
  split; rewrite hexToInt64_charact; cbv zeta.
  - rewrite Hid. change (split_sign (String "-" d)) with (true, d).
    cbv beta iota.
    rewrite Hne, Hall, Hmin, Hmax. cbn [andb].
    destruct (hex_value d <=? 2 ^ 63); reflexivity.
  - rewrite strip0x_0x. change (split_sign (String "-" d)) with (true, d).
    cbv beta iota.
    rewrite Hne, Hall, Hmin, Hmax. cbn [andb].
    destruct (hex_value d <=? 2 ^ 63); reflexivity.
Qed.

Lemma hexToInt64_negative_witness :
  hexToInt64 "-8000000000000000" = inl (- 2 ^ 63)
  /\ hexToInt64 "0x-8000000000000000" = inl (- 2 ^ 63).
Proof.
  apply (hexToInt64_negative "8000000000000000").
  split; vm_compute; reflexivity.
Defined.

(** X7: a plus sign in front of one or more hexadecimal digits changes
    nothing of the value: the result is the value when it is at most
    [2^63 - 1], the range error beyond. *)
Theorem hexToInt64_plus d :
  digits_ok d ->
  let result :=
    if hex_value d <=? GoInt.max_int64 then inl (hex_value d)
    else inr (err_too_large ("+" ++ d)) in
  hexToInt64 ("+" ++ d) = result /\ hexToInt64 ("0x+" ++ d) = result.
Proof.
  intros [Hne Hall]. cbv zeta.
  pose proof (hex_value_nonneg d) as Hnn.
  assert (Hmin : (GoInt.min_int64 <=? hex_value d) = true)
    by (apply Z.leb_le; unfold GoInt.min_int64; lia).
  change ("+" ++ d)%string with (String "+" d).
  change ("0x+" ++ d)%string with (String "0" (String "x" (String "+" d))).
  assert (Hid : strip0x (String "+" d) = String "+" d)
    by (apply strip0x_id; intros d'; discriminate).
  split; rewrite hexToInt64_charact; cbv zeta.
  - rewrite Hid. change (split_sign (String "+" d)) with (false, d).
    cbv beta iota.
    rewrite Hne, Hall, Hmin. reflexivity.
  - rewrite strip0x_0x. change (split_sign (String "+" d)) with (false, d).
    cbv beta iota.
    rewrite Hne, Hall, Hmin. reflexivity.
Qed.

Lemma hexToInt64_plus_witness :
  hexToInt64 "+1f" = inl 31 /\ hexToInt64 "0x+1f" = inl 31.
Proof.
  apply (hexToInt64_plus "1f"). split; vm_compute; reflexivity.
Defined.

(** X8: zeros in front of the digits change nothing: however many there are,
    a numeral whose value is at most [2^63 - 1] is accepted with that value;
    the length of the string is not bounded. *)
Theorem hexToInt64_leading_zeros n d :
  digits_ok d ->
  hex_value d <= GoInt.max_int64 ->
  hexToInt64 (zeros n ++ d) = inl (hex_value d)
  /\ hexToInt64 ("0x" ++ zeros n ++ d) = inl (hex_value d).
Proof.
  intros [Hne Hall] Hmax.
  assert (Hok : digits_ok (zeros n ++ d)).
  { split.
    - destruct n; [exact Hne | reflexivity].
    - now rewrite all_hex_app, all_hex_zeros, Hall. }
  pose proof (hexToInt64_digits _ Hok) as H. cbv zeta in H.
  rewrite hex_value_zeros in H. apply Z.leb_le in Hmax.
  rewrite Hmax in H. exact H.
Qed.

Lemma hexToInt64_leading_zeros_witness :
  hexToInt64 (zeros 40 ++ "2a") = inl 42
  /\ hexToInt64 ("0x" ++ zeros 40 ++ "2a") = inl 42.
Proof.
  apply (hexToInt64_leading_zeros 40 "2a").
  - split; vm_compute; reflexivity.
  - vm_compute. discriminate.
Defined.

(** X9: the case of the digits [a]-[f] does not matter: the digits written
    in upper case give the same result as the digits themselves. *)
Theorem hexToInt64_upper_digits d :
  digits_ok d ->
  hex_value d <= GoInt.max_int64 ->
  hexToInt64 (upper d) = inl (hex_value d)
  /\ hexToInt64 ("0x" ++ upper d) = inl (hex_value d)
  /\ hexToInt64 ("0x" ++ d) = inl (hex_value d).
Proof.
  intros [Hne Hall] Hmax. destruct (upper_digits d Hall) as [Hua Huv].
  assert (Hok : digits_ok (upper d))
    by (split; [destruct d; [discriminate Hne | reflexivity] | exact Hua]).
  pose proof (hexToInt64_digits _ Hok) as Hu. cbv zeta in Hu.
  pose proof (hexToInt64_digits d (conj Hne Hall)) as Hd. cbv zeta in Hd.
  rewrite Huv in Hu. apply Z.leb_le in Hmax. rewrite Hmax in Hu, Hd.
  destruct Hu as [Hu1 Hu2]. destruct Hd as [_ Hd2].
  split; [exact Hu1|]. split; [exact Hu2 | exact Hd2].
Qed.

Lemma hexToInt64_upper_digits_witness :
  hexToInt64 (upper "c0ffee") = inl 12648430
  /\ hexToInt64 ("0x" ++ upper "c0ffee") = inl 12648430
  /\ hexToInt64 "0xc0ffee" = inl 12648430.
Proof.
  apply (hexToInt64_upper_digits "c0ffee").
  - split; vm_compute; reflexivity.
  - vm_compute. discriminate.
Defined.

(** X10: every block number from 0 to [2^63 - 1], written the way a node
    writes it ([0x], lower-case digits, no leading zeros), is read back as
    itself. *)
Theorem hexToInt64_format_hex v :
  0 <= v <= GoInt.max_int64 ->
  hexToInt64 (format_hex v) = inl v.
Proof.
  intros [H0 Hmax]. unfold format_hex.
  assert (Hv : 0 <= v < 16 ^ Z.of_nat 16)
    by (unfold GoInt.max_int64 in Hmax; change (16 ^ Z.of_nat 16) with (2 ^ 64); lia).
  pose proof (hex_digits_value 16 v EmptyString ltac:(lia) Hv eq_refl) as H.
  cbv zeta in H. destruct H as (Hall & Hne & Hval).
  cbn [String.length hex_value] in Hval.
  assert (Hval' : hex_value (hex_digits 16 v "") = v) by (rewrite Hval; cbn; lia).
  pose proof (hexToInt64_digits _ (conj Hne Hall)) as [_ H]. cbv zeta in H.
  rewrite Hval' in H. apply Z.leb_le in Hmax. now rewrite Hmax in H.
Qed.

Lemma hexToInt64_format_hex_witness :
  hexToInt64 (format_hex 19000000) = inl 19000000.
Proof.
  apply (hexToInt64_format_hex 19000000). vm_compute.
  split; discriminate.
Defined.

(** ** Further facts about [pluginFeature] *)

Lemma observed_inv w h :
  observed w = Some h ->
  exists resp, w = Unmarshalled resp /\ hexToInt64 (Result resp) = inl h.
Proof.
  unfold observed. destruct w as [err|err|resp]; try discriminate.
  destruct (hexToInt64 (Result resp)) as [h'|] eqn:Hh; [|discriminate].
  intros [= ->]. now exists resp.
Qed.

Lemma observed_none w :
  observed w = None -> exists pre e, failure_of w = Some (pre, e).
Proof.
  intros H. pose proof (observed_failure_of w) as Hw. now rewrite H in Hw.
Qed.

(** The variables after one call. *)
Lemma step_globals info w g :
  snd (pluginFeature info w g)
  = match observed w with
    | Some h =>
        mkGlobals h
          (if prevHeight g <? h then 0 else GoInt.wrap_int (warningCount g + 1))
          (criticalCount g)
    | None => g
    end.
Proof.
  destruct (observed w) as [h|] eqn:Hobs.
  - destruct (observed_inv w h Hobs) as (resp & -> & Hh).
    destruct (Z.ltb_spec (prevHeight g) h) as [Hlt|Hge].
    + now rewrite (pluginFeature_increasing info resp g h Hh Hlt).
    + pose proof (pluginFeature_stalled info resp g h Hh Hge) as E.
      cbv zeta in E. now rewrite E.
  - destruct (observed_none w Hobs) as (pre & e & Hw).
    now rewrite (pluginFeature_failed info w g pre e Hw).
Qed.

(** The severity and the error returned by one call. *)
Lemma step_severity info w g :
  Severity (fst (fst (pluginFeature info w g)))
  = match observed w with
    | Some h =>
        if prevHeight g <? h then SEVERITY_INFO
        else if GoInt.wrap_int (warningCount g + 1) >? criticalCount g
             then SEVERITY_CRITICAL else SEVERITY_WARNING
    | None => SEVERITY_CRITICAL
    end.
Proof.
  destruct (observed w) as [h|] eqn:Hobs.
  - destruct (observed_inv w h Hobs) as (resp & -> & Hh).
    destruct (Z.ltb_spec (prevHeight g) h) as [Hlt|Hge].
    + now rewrite (pluginFeature_increasing info resp g h Hh Hlt).
    + pose proof (pluginFeature_stalled info resp g h Hh Hge) as E.
      cbv zeta in E. rewrite E. cbn [fst Severity].
      now destruct (GoInt.wrap_int (warningCount g + 1) >? criticalCount g).
  - destruct (observed_none w Hobs) as (pre & e & Hw).
    now rewrite (pluginFeature_failed info w g pre e Hw).
Qed.

Lemma step_error info w g :
  no_error (fst (pluginFeature info w g)) = succeeded (info, w).
Proof.
  unfold no_error, succeeded. cbn [snd].
  destruct (observed w) as [h|] eqn:Hobs.
  - destruct (observed_inv w h Hobs) as (resp & -> & Hh).
    destruct (Z.lt_ge_cases (prevHeight g) h) as [Hlt|Hge].
    + now rewrite (pluginFeature_increasing info resp g h Hh Hlt).
    + pose proof (pluginFeature_stalled info resp g h Hh Hge) as E.
      cbv zeta in E. now rewrite E.
  - destruct (observed_none w Hobs) as (pre & e & Hw).
    now rewrite (pluginFeature_failed info w g pre e Hw).
Qed.

(** What a call returns when it fails does not depend on the variables. *)
Lemma step_failed_result info w g g' :
  observed w = None ->
  fst (pluginFeature info w g) = fst (pluginFeature info w g').
Proof.
  intros Hobs. destruct (observed_none w Hobs) as (pre & e & Hw).
  now rewrite !(pluginFeature_failed info w _ pre e Hw).
Qed.

Lemma hexToInt64_in_int64 s v : hexToInt64 s = inl v -> GoInt.in_int64 v.
Proof.
  rewrite hexToInt64_charact. cbv zeta.
  destruct (split_sign (strip0x s)) as [ng d].
  destruct (nonempty d && all_hex d); [|discriminate].
  set (w := if ng then - hex_value d else hex_value d).
  destruct (Z.leb_spec GoInt.min_int64 w); destruct (Z.leb_spec w GoInt.max_int64);
    cbn [andb]; try discriminate.
  intros [= <-]. split; assumption.
Qed.

Lemma last_cons_default {A} (x : A) l d : last (x :: l) d = last l x.
Proof.
  revert x d. induction l as [|y l IH]; intros x d; [reflexivity|].
  change (last (x :: y :: l) d) with (last (y :: l) d).
  now rewrite (IH y d), (IH y x).
Qed.

Lemma stalls_from ticks : forall g (w : nat),
  stalling (prevHeight g) ticks ->
  warningCount g = Z.of_nat w ->
  Z.of_nat (w + List.length ticks) <= GoInt.max_int ->
  map (fun r => Severity (fst r)) (fst (run ticks g))
  = map (stall_severity (criticalCount g)) (seq (S w) (List.length ticks))
  /\ warningCount (snd (run ticks g)) = Z.of_nat (w + List.length ticks).
Proof.
  induction ticks as [|[info wd] ticks IH]; intros g w Hst Hw Hmax.
  - cbn [run fst snd map seq List.length]. split; [reflexivity|].
    now rewrite Nat.add_0_r.
  - cbn [stalling snd] in Hst. destruct Hst as (h & Hobs & Hle & Hst).
    cbn [List.length] in Hmax |- *. rewrite run_cons. cbn [fst snd map seq].
    pose proof (step_globals info wd g) as Hg.
    pose proof (step_severity info wd g) as Hs.
    rewrite Hobs in Hg, Hs.
    replace (prevHeight g <? h) with false in Hg, Hs
      by (symmetry; apply Z.ltb_ge; exact Hle).
    assert (Hwrap : GoInt.wrap_int (warningCount g + 1) = Z.of_nat (S w)).
    { rewrite wrap_int_small; [lia|].
      unfold GoInt.in_int, GoInt.min_int, GoInt.min_int64. lia. }
    rewrite Hwrap in Hg, Hs.
    set (g1 := snd (pluginFeature info wd g)) in *.
    assert (Hc1 : criticalCount g1 = criticalCount g) by now rewrite Hg.
    destruct (IH g1 (S w)) as [IHs IHc].
    + now rewrite Hg.
    + now rewrite Hg.
    + lia.
    + rewrite IHs, IHc, Hc1, Hs. split.
      * reflexivity.
      * f_equal. lia.
Qed.

(** ** Further properties of [pluginFeature] *)

(** X11: the variables stay within their types: if [prevHeight] is a signed
    64-bit integer and [warningCount] an [int] before a sequence of calls,
    they are after it, whatever the node answers. *)
Theorem run_keeps_ranges ticks : forall g,
  GoInt.in_int64 (prevHeight g) -> GoInt.in_int (warningCount g) ->
  GoInt.in_int64 (prevHeight (snd (run ticks g)))
  /\ GoInt.in_int (warningCount (snd (run ticks g))).
Proof.
  induction ticks as [|[info w] ticks IH]; intros g Hp Hc.
  - cbn [run snd]. split; assumption.
  - rewrite run_cons. cbn [snd]. apply IH; rewrite step_globals;
      destruct (observed w) as [h|] eqn:Hobs; try assumption;
      cbn [prevHeight warningCount].
    + destruct (observed_inv w h Hobs) as (resp & _ & Hh).
      exact (hexToInt64_in_int64 _ _ Hh).
    + destruct (prevHeight g <? h).
      * unfold GoInt.in_int, GoInt.min_int, GoInt.max_int,
          GoInt.min_int64, GoInt.max_int64. lia.
      * apply wrap_int64_range.
Qed.

Lemma run_keeps_ranges_witness :
  GoInt.in_int64
    (prevHeight (snd (run [(no_info, answer "-ff"); (no_info, answer "0x10")]
                        init_globals)))
  /\ GoInt.in_int
       (warningCount (snd (run [(no_info, answer "-ff"); (no_info, answer "0x10")]
                             init_globals))).
Proof.
  apply (run_keeps_ranges [(no_info, answer "-ff"); (no_info, answer "0x10")]
           init_globals); vm_compute; split; discriminate.
Defined.

(** X12: no call changes [criticalCount]. *)
Theorem run_keeps_criticalCount ticks : forall g,
  criticalCount (snd (run ticks g)) = criticalCount g.
Proof.
  induction ticks as [|[info w] ticks IH]; intros g; [reflexivity|].
  rewrite run_cons. cbn [snd]. rewrite IH, step_globals.
  now destruct (observed w).
Qed.

(** X13: the calls that fail leave no trace: the variables after a sequence
    of calls are those after its successful calls alone, and the results of
    those are the results returned with a nil error. *)
Theorem run_ignores_failures ticks : forall g,
  snd (run ticks g) = snd (run (filter succeeded ticks) g)
  /\ fst (run (filter succeeded ticks) g) = filter no_error (fst (run ticks g)).
Proof.
  induction ticks as [|[info w] ticks IH]; intros g.
  - split; reflexivity.
  - rewrite run_cons. cbn [fst snd filter].
    rewrite (step_error info w g).
    destruct (succeeded (info, w)) eqn:Hok.
    + rewrite run_cons. cbn [fst snd].
      destruct (IH (snd (pluginFeature info w g))) as [IH1 IH2].
      rewrite IH1, IH2. split; reflexivity.
    + assert (Hg : snd (pluginFeature info w g) = g).
      { rewrite step_globals. unfold succeeded in Hok. cbn [snd] in Hok.
        now destruct (observed w). }
      rewrite Hg. apply IH.
Qed.

(** X14: after a sequence of calls [prevHeight] is the height observed by
    the last successful call, and its old value if none succeeded. *)
Theorem run_prevHeight_last ticks : forall g,
  prevHeight (snd (run ticks g)) = last (observations ticks) (prevHeight g).
Proof.
  induction ticks as [|[info w] ticks IH]; intros g; [reflexivity|].
  rewrite run_cons. cbn [snd observations]. rewrite IH, step_globals.
  destruct (observed w) as [h|]; [|reflexivity].
  cbn [prevHeight]. now rewrite last_cons_default.
Qed.

(** X15: from [warningCount = 0], calls in a row that each observe a height
    not above the one before report WARNING for the first [criticalCount]
    of them and CRITICAL from then on, and [warningCount] ends as their
    number (as long as that number is an [int]). *)
Theorem stalls_in_a_row ticks p c :
  stalling p ticks ->
  Z.of_nat (List.length ticks) <= GoInt.max_int ->
  map (fun r => Severity (fst r)) (fst (run ticks (mkGlobals p 0 c)))
  = map (stall_severity c) (seq 1 (List.length ticks))
  /\ warningCount (snd (run ticks (mkGlobals p 0 c)))
     = Z.of_nat (List.length ticks).
Proof.
  intros Hst Hmax.
  exact (stalls_from ticks (mkGlobals p 0 c) 0 Hst eq_refl Hmax).
Qed.

Lemma stalls_in_a_row_witness :
  map (fun r => Severity (fst r))
    (fst (run [(no_info, answer "0x64"); (no_info, answer "0x60");
               (no_info, answer "0x60")] (mkGlobals 100 0 1)))
  = [SEVERITY_WARNING; SEVERITY_CRITICAL; SEVERITY_CRITICAL]
  /\ warningCount
       (snd (run [(no_info, answer "0x64"); (no_info, answer "0x60");
                  (no_info, answer "0x60")] (mkGlobals 100 0 1))) = 3.
Proof.
  apply (stalls_in_a_row
           [(no_info, answer "0x64"); (no_info, answer "0x60");
            (no_info, answer "0x60")] 100 1).
  - exists 100. split; [vm_compute; reflexivity|]. split; [lia|].
    exists 96. split; [vm_compute; reflexivity|]. split; [lia|].
    exists 96. split; [vm_compute; reflexivity|]. split; [lia|exact I].
  - vm_compute. discriminate.
Defined.

(** X16: a height is compared with the one observed by the call before, not
    with the highest one seen: after a call that observes [h1], a call that
    observes a higher [h2] reports INFO and resets [warningCount], even
    though [h2] is not above the height known before both calls. *)
Theorem rise_after_drop_is_info i1 i2 w1 w2 g h1 h2 :
  observed w1 = Some h1 -> observed w2 = Some h2 ->
  h1 < h2 -> h2 <= prevHeight g ->
  exists s1,
    map (fun r => Severity (fst r)) (fst (run [(i1, w1); (i2, w2)] g))
    = [s1; SEVERITY_INFO]
    /\ s1 <> SEVERITY_INFO
    /\ warningCount (snd (run [(i1, w1); (i2, w2)] g)) = 0
    /\ prevHeight (snd (run [(i1, w1); (i2, w2)] g)) = h2.
Proof.
  intros Ho1 Ho2 Hlt Hle. rewrite !run_cons. cbn [run fst snd map].
  pose proof (step_globals i1 w1 g) as Hg1.
  pose proof (step_severity i1 w1 g) as Hs1.
  rewrite Ho1 in Hg1, Hs1.
  replace (prevHeight g <? h1) with false in Hg1, Hs1
    by (symmetry; apply Z.ltb_ge; lia).
  set (g1 := snd (pluginFeature i1 w1 g)) in *.
  pose proof (step_globals i2 w2 g1) as Hg2.
  pose proof (step_severity i2 w2 g1) as Hs2.
  rewrite Ho2 in Hg2, Hs2.
  replace (prevHeight g1 <? h2) with true in Hg2, Hs2
    by (symmetry; rewrite Hg1; cbn [prevHeight]; now apply Z.ltb_lt).
  exists (Severity (fst (fst (pluginFeature i1 w1 g)))).
  rewrite Hs2, Hg2. cbn [warningCount prevHeight].
  repeat split. rewrite Hs1.
  destruct (GoInt.wrap_int (warningCount g + 1) >? criticalCount g); discriminate.
Qed.

Lemma rise_after_drop_is_info_witness :
  exists s1,
    map (fun r => Severity (fst r))
      (fst (run [(no_info, answer "0x10"); (no_info, answer "0x20")]
              (mkGlobals 100 0 3)))
    = [s1; SEVERITY_INFO]
    /\ s1 <> SEVERITY_INFO
    /\ warningCount (snd (run [(no_info, answer "0x10"); (no_info, answer "0x20")]
                            (mkGlobals 100 0 3))) = 0
    /\ prevHeight (snd (run [(no_info, answer "0x10"); (no_info, answer "0x20")]
                          (mkGlobals 100 0 3))) = 32.
Proof.
  apply (rise_after_drop_is_info no_info no_info (answer "0x10") (answer "0x20")
           (mkGlobals 100 0 3) 16 32);
    try (vm_compute; reflexivity); cbn; lia.
Defined.

(** X17: on every return path the result carries the string stored under
    [execute_method] in [info]; it is the empty string when the key is
    missing or its value is not a string. *)
Theorem pluginFeature_FuncName info w g :
  FuncName (fst (fst (pluginFeature info w g)))
  = match info "execute_method"%string with
    | Some (StringValue name) => name
    | _ => EmptyString
    end.
Proof.
  change (match info "execute_method"%string with
          | Some (StringValue name) => name
          | _ => EmptyString
          end) with (GetStringValue (info "execute_method"%string)).
  destruct (observed w) as [h|] eqn:Hobs.
  - destruct (observed_inv w h Hobs) as (resp & -> & Hh).
    destruct (Z.lt_ge_cases (prevHeight g) h) as [Hlt|Hge].
    + now rewrite (pluginFeature_increasing info resp g h Hh Hlt).
    + pose proof (pluginFeature_stalled info resp g h Hh Hge) as E.
      cbv zeta in E. now rewrite E.
  - destruct (observed_none w Hobs) as (pre & e & Hw).
    now rewrite (pluginFeature_failed info w g pre e Hw).
Qed.

(** X18: [warningCount] never counts more than the calls made: starting
    from a non-negative count, after [n] calls it is between 0 and the old
    count plus [n] (as long as that sum is an [int]). *)
Theorem run_warningCount_bounded ticks : forall g,
  0 <= warningCount g ->
  warningCount g + Z.of_nat (List.length ticks) <= GoInt.max_int ->
  0 <= warningCount (snd (run ticks g))
       <= warningCount g + Z.of_nat (List.length ticks).
Proof.
  induction ticks as [|[info w] ticks IH]; intros g H0 Hmax.
  - cbn [run snd List.length]. lia.
  - rewrite run_cons. cbn [snd]. cbn [List.length] in Hmax |- *.
    set (g1 := snd (pluginFeature info w g)).
    assert (H1 : 0 <= warningCount g1 <= warningCount g + 1).
    { unfold g1. rewrite step_globals.
      destruct (observed w) as [h|]; [|lia]. cbn [warningCount].
      destruct (prevHeight g <? h); [lia|].
      rewrite wrap_int_small; [lia|].
      unfold GoInt.in_int, GoInt.min_int, GoInt.min_int64. lia. }
    specialize (IH g1 ltac:(lia) ltac:(lia)). lia.
Qed.

Lemma run_warningCount_bounded_witness :
  0 <= warningCount
         (snd (run [(no_info, answer "0x0"); (no_info, PostFailed "refused");
                    (no_info, answer "0x0")] init_globals))
       <= warningCount init_globals + 3.
Proof.
  apply (run_warningCount_bounded
           [(no_info, answer "0x0"); (no_info, PostFailed "refused");
            (no_info, answer "0x0")] init_globals).
  - cbn. lia.
  - vm_compute. discriminate.
Defined.

(** X19: INFO is reported exactly when a height is observed that is strictly
    above [prevHeight]. *)
Theorem info_iff_increase info w g :
  Severity (fst (fst (pluginFeature info w g))) = SEVERITY_INFO
  <-> exists h, observed w = Some h /\ prevHeight g < h.
Proof.
  rewrite step_severity. destruct (observed w) as [h|].
  - destruct (Z.ltb_spec (prevHeight g) h) as [Hlt|Hge].
    + split; [intros _; now exists h | reflexivity].
    + split.
      * destruct (GoInt.wrap_int (warningCount g + 1) >? criticalCount g);
          discriminate.
      * intros (h' & [= <-] & Hlt). lia.
  - split; [discriminate | intros (h' & Hh & _); discriminate Hh].
Qed.

(** X20: below the largest [int], WARNING is reported exactly when the
    observed height is not above [prevHeight] and the incremented count is
    at most [criticalCount]; CRITICAL exactly when the call fails, or the
    observed height is not above [prevHeight] and the incremented count
    exceeds [criticalCount]. *)
Theorem warning_critical_iff info w g :
  GoInt.min_int <= warningCount g < GoInt.max_int ->
  (Severity (fst (fst (pluginFeature info w g))) = SEVERITY_WARNING
   <-> exists h, observed w = Some h /\ h <= prevHeight g
                 /\ warningCount g + 1 <= criticalCount g)
  /\ (Severity (fst (fst (pluginFeature info w g))) = SEVERITY_CRITICAL
      <-> observed w = None
          \/ exists h, observed w = Some h /\ h <= prevHeight g
                       /\ criticalCount g < warningCount g + 1).
Proof.
  intros Hc. rewrite step_severity.
  rewrite wrap_int_small by (unfold GoInt.in_int; lia).
  destruct (observed w) as [h|].
  - destruct (Z.ltb_spec (prevHeight g) h) as [Hlt|Hge].
    + split; (split; [discriminate|]).
      * intros (h' & [= <-] & Hle & _). lia.
      * intros [Hn | (h' & [= <-] & Hle & _)]; [discriminate Hn | lia].
    + rewrite Z.gtb_ltb.
      destruct (Z.ltb_spec (criticalCount g) (warningCount g + 1)) as [Hgt|Hle].
      * split; split; try discriminate.
        -- intros (h' & [= <-] & _ & Hcc). lia.
        -- intros _. right. exists h. repeat split; assumption.
        -- reflexivity.
      * split; split; try discriminate.
        -- intros _. exists h. repeat split; assumption.
        -- reflexivity.
        -- intros [Hn | (h' & [= <-] & _ & Hcc)]; [discriminate Hn | lia].
  - split; split; try discriminate.
    + intros (h' & Hh & _). discriminate Hh.
    + intros _. now left.
    + reflexivity.
Qed.

Lemma warning_critical_iff_witness :
  Severity (fst (fst (pluginFeature no_info (answer "0x5") (mkGlobals 9 3 3))))
  = SEVERITY_CRITICAL
  <-> observed (answer "0x5") = None
      \/ exists h, observed (answer "0x5") = Some h /\ h <= 9 /\ 3 < 3 + 1.
Proof.
  apply (warning_critical_iff no_info (answer "0x5") (mkGlobals 9 3 3)).
  vm_compute. split; [discriminate | reflexivity].
Defined.


